(** * go-gcm: the delivery client of [client.go]

    A shallow embedding of [CreateClient], [SendMessage] and [send], and of
    the message encoder they call.  Go slices are lists, indexed writes are
    stdpp's list insert guarded by the bounds check the Go runtime performs,
    a pointer that may be nil is an [option], and a run-time panic is an
    explicit outcome.  The HTTP exchange is threaded through a log of the
    requests handed to the transport. *)

From Stdlib Require Import ZArith String Ascii Lia.
From stdpp Require Import base list.

Local Open Scope Z_scope.
Local Open Scope string_scope.
Local Open Scope list_scope.

(** ** Data model *)

(** Modelled from the spec: the declaration of [Result] is outside
    [client.go]; the three fields are the ones [send] and the spec name. *)
Record Result := mkResult {
  MessageID : string;
  RegistrationID : string;
  Error : string
}.

(** Modelled from the spec: the declaration of [Response] is outside
    [client.go]; [send] assigns exactly these five fields. *)
Record Response := mkResponse {
  MulticastID : Z;
  Success : Z;
  Failure : Z;
  CanonicalIDs : Z;
  Results : list Result
}.

(** Modelled from the spec: the declaration of [Message] is outside
    [client.go]; [send] reads [RegistrationIDs] only, the other fields are the
    payload and options the spec lists. *)
Record Message := mkMessage {
  RegistrationIDs : list string;
  Data : list (string * string);
  Priority : string;
  TimeToLive : Z;
  CollapseKey : string;
  DelayWhileIdle : bool;
  DryRun : bool
}.

(** [Result{}] : every field at its zero value. *)
Definition zeroResult : Result := mkResult "" "" "".

(** [Result{Error: e, RegistrationID: id}] *)
Definition errorResult (e : string) (registrationID : string) : Result :=
  mkResult "" registrationID e.

(** [r.RegistrationID = id] on a slice element. *)
Definition setRegistrationID (registrationID : string) (r : Result) : Result :=
  mkResult (MessageID r) registrationID (Error r).

Definition setResults (results : list Result) (r : Response) : Response :=
  mkResponse (MulticastID r) (Success r) (Failure r) (CanonicalIDs r) results.

(** ** Run-time panics *)

Inductive Panic :=
| NilDereference
| IndexOutOfRange (index len : nat).

Inductive Outcome (A : Type) :=
| Returned (a : A)
| Panicked (p : Panic).
Arguments Returned {A} a.
Arguments Panicked {A} p.

(** [s[idx] = v] : the Go runtime checks the index. *)
Definition storeAt {A} (idx : nat) (v : A) (s : list A) : Outcome (list A) :=
  if decide (idx < length s)%nat
  then Returned (<[idx := v]> s)
  else Panicked (IndexOutOfRange idx (length s)).

(** [s[idx].RegistrationID = id] : same check, the element is updated in
    place. *)
Definition stampAt (idx : nat) (registrationID : string) (s : list Result)
  : Outcome (list Result) :=
  match s !! idx with
  | Some r => Returned (<[idx := setRegistrationID registrationID r]> s)
  | None => Panicked (IndexOutOfRange idx (length s))
  end.

(** [for idx, registrationID := range ids { body }] over a slice of results,
    started at index [idx]. *)
Fixpoint rangeFrom (idx : nat) (ids : list string)
    (body : nat -> string -> list Result -> Outcome (list Result))
    (results : list Result) : Outcome (list Result) :=
  match ids with
  | [] => Returned results
  | registrationID :: rest =>
      match body idx registrationID results with
      | Returned results' => rangeFrom (S idx) rest body results'
      | Panicked p => Panicked p
      end
  end.

(** The block [send] repeats on each of its three failure branches
    (lines 69-81, 87-107, 127-139): allocate [len(RegistrationIDs)] zero
    results, then fill them by index. *)
Definition failureResponse (errorMessage : string) (message : Message)
  : Outcome Response :=
  let n := length (RegistrationIDs message) in
  match rangeFrom 0 (RegistrationIDs message)
          (fun idx registrationID => storeAt idx (errorResult errorMessage registrationID))
          (replicate n zeroResult) with
  | Returned results => Returned (mkResponse (-1) 0 (Z.of_nat n) 0 results)
  | Panicked p => Panicked p
  end.

(** ** HTTP *)

Record Request := mkRequest {
  Method : string;
  URL : string;
  Header : list (string * string);
  RequestBody : string
}.

(** What [ioutil.ReadAll] yields on the body of a response: the bytes read
    and the read error, [None] for nil. *)
Record ReadCloser := mkBody {
  contents : string;
  readError : option string
}.

Record HTTPResponse := mkHTTPResponse {
  StatusCode : Z;
  Body : ReadCloser
}.

Definition ioutil_ReadAll (b : ReadCloser) : string * option string :=
  (contents b, readError b).

Definition StatusOK : Z := 200.
Definition StatusUnauthorized : Z := 401.

(** The requests handed to the transport so far, oldest first. *)
Definition Log := list Request.

(** [*http.Client] through its [Do]: the answer to a request may depend on
    everything sent before; [None] is a nil response. *)
Definition HTTPClientT := Log -> Request -> option HTTPResponse.

Definition Header_Add (key value : string) (r : Request) : Request :=
  mkRequest (Method r) (URL r) (Header r ++ [(key, value)]) (RequestBody r).

(** ** Constants of [client.go] *)

Definition Gateway : string := "https://android.googleapis.com/gcm/send".
Definition MaxBackOffDelay : Z := 1024000.
Definition BackOffInitialDelay : Z := 1000.

(** The field [Gateway] of the Go struct is [ClientGateway] here: the
    constant above has the name. *)
Record Client := mkClient {
  APIKey : string;
  ClientGateway : string;
  HTTPClient : HTTPClientT
}.

(** ** Computations that send requests and may panic *)

Definition M (A : Type) := Log -> Outcome A * Log.

Definition ret {A} (a : A) : M A := fun log => (Returned a, log).

Definition bind {A B} (c : M A) (k : A -> M B) : M B := fun log =>
  match c log with
  | (Returned a, log') => k a log'
  | (Panicked p, log') => (Panicked p, log')
  end.

Definition lift {A} (o : Outcome A) : M A := fun log => (o, log).

Definition panic {A} (p : Panic) : M A := lift (Panicked p).

(** [m.HTTPClient.Do(request)] : the request is logged, the error result is
    dropped as in the source. *)
Definition Do (c : HTTPClientT) (request : Request) : M (option HTTPResponse) :=
  fun log => (Returned (c log request), log ++ [request]).

Notation "x <- c ;; k" := (bind c (fun x => k))
  (at level 100, c at next level, right associativity).

(** ** Message encoder *)

Module Encoder.

(** Modelled from the spec: [encode] is outside [client.go].  Consecutive
    chunks of at most [limit] identifiers, all but the last one full. *)
Fixpoint chunks (fuel limit : nat) (ids : list string) : list (list string) :=
  match fuel with
  | O => []
  | S fuel' =>
      match ids with
      | [] => []
      | _ => take limit ids :: chunks fuel' limit (drop limit ids)
      end
  end.

Definition withRegistrationIDs (message : Message) (ids : list string) : Message :=
  mkMessage ids (Data message) (Priority message) (TimeToLive message)
            (CollapseKey message) (DelayWhileIdle message) (DryRun message).

(** Modelled from the spec: [encode] is outside [client.go].  One wire
    message per chunk, carrying the payload and options of the original; the
    batch limit [MaxRegistrationIDs] is a constant declared outside
    [client.go] too and is taken as an argument. *)
Definition encode (MaxRegistrationIDs : nat) (message : Message) : list Message :=
  withRegistrationIDs message <$>
    chunks (length (RegistrationIDs message)) MaxRegistrationIDs (RegistrationIDs message).

(** The payload and options of a message: everything but the identifiers. *)
Definition samePayload (a b : Message) : Prop :=
  Data a = Data b /\ Priority a = Priority b /\ TimeToLive a = TimeToLive b /\
  CollapseKey a = CollapseKey b /\ DelayWhileIdle a = DelayWhileIdle b /\
  DryRun a = DryRun b.

(** ceil(k / limit) *)
Definition ceilDiv (k limit : nat) : nat := ((k + limit - 1) / limit)%nat.

End Encoder.

(** ** The client *)

(** What [client.go] takes from outside: constants and a method declared in
    other files of the package, and the library calls whose results the
    code branches on. *)
Class Env := {
  (** error kinds, string constants *)
  Timeout : string;
  AuthenticationError : string;
  InternalServerError : string;
  InvalidJSON : string;
  (** [json.Marshal] on a message; its error is dropped by [send] *)
  json_Marshal : Message -> string;
  (** [json.Unmarshal] into a fresh [Response]; [None] when it reports an
      error *)
  json_Unmarshal : string -> option Response;
  (** whether [http.NewRequest] accepts the URL; it returns a nil request
      otherwise *)
  url_Parse : string -> bool;
  (** [http.DefaultClient] *)
  http_DefaultClient : HTTPClientT;
  (** the method [encode] of [Message] *)
  encode : Message -> list Message
}.

Section Client.

Context `{env : Env}.

Definition http_NewRequest (method url : string) (body : string) : option Request :=
  if url_Parse url then Some (mkRequest method url [] body) else None.

(** [CreateClient] *)
Definition CreateClient (apiKey : string) (gateway : string) : Client :=
  mkClient apiKey gateway http_DefaultClient.

(** Lines 59-64 of [send]: the request, or nil.  [request.Header.Add] on a
    nil request is a nil dereference. *)
Definition buildRequest (m : Client) (message : Message) : option Request :=
  let data := json_Marshal message in
  match http_NewRequest "POST" (ClientGateway m) data with
  | None => None
  | Some request =>
      Some (Header_Add "Content-Type" "application/json"
             (Header_Add "Authorization" ("key=" ++ APIKey m) request))
  end.

(** Lines 110-139 of [send]: the body of a 200 response. *)
Definition decode (message : Message) (httpResponse : HTTPResponse)
  : Outcome Response :=
  let (body, err) := ioutil_ReadAll (Body httpResponse) in
  match err with
  | None =>
      match json_Unmarshal body with
      | Some response =>
          match rangeFrom 0 (RegistrationIDs message) stampAt (Results response) with
          | Returned results => Returned (setResults results response)
          | Panicked p => Panicked p
          end
      | None => failureResponse InvalidJSON message
      end
  | Some _ => failureResponse InvalidJSON message
  end.

(** [send].  The deferred [Body.Close] releases the connection and has no
    part in the value returned; it is left out. *)
Definition send (m : Client) (message : Message) : M Response :=
  match buildRequest m message with
  | None => panic NilDereference
  | Some request =>
      httpResponse <- Do (HTTPClient m) request ;;
      match httpResponse with
      | None => lift (failureResponse Timeout message)
      | Some httpResponse =>
          if negb (StatusCode httpResponse =? StatusOK)%Z then
            let errorMessage :=
              if (StatusCode httpResponse =? StatusUnauthorized)%Z
              then AuthenticationError else InternalServerError in
            lift (failureResponse errorMessage message)
          else lift (decode message httpResponse)
      end
  end.

(** The loop of [SendMessage], from index [idx]: [responses] is the slice of
    [*Response], nil until written. *)
Fixpoint sendFrom (m : Client) (idx : nat) (messages : list Message)
    (responses : list (option Response)) : M (list (option Response)) :=
  match messages with
  | [] => ret responses
  | message :: rest =>
      r <- send m message ;;
      responses' <- lift (storeAt idx (Some r) responses) ;;
      sendFrom m (S idx) rest responses'
  end.

(** The responses of the wire messages, each sent after the one before it:
    what the loop of [SendMessage] is compared with below. *)
Fixpoint sendAll (m : Client) (messages : list Message) : M (list Response) :=
  match messages with
  | [] => ret []
  | message :: rest =>
      r <- send m message ;;
      rs <- sendAll m rest ;;
      ret (r :: rs)
  end.

(** [SendMessage]; [None] is a nil [*Message], and the nil slice it returns
    is the empty list. *)
Definition SendMessage (m : Client) (message : option Message)
  : M (list (option Response)) :=
  match message with
  | None => ret []
  | Some message =>
      let messages := encode message in
      let responses := replicate (length messages) None in
      sendFrom m 0 messages responses
  end.

End Client.

(** ** Test doubles

    A transport that replays scripted answers, a decoder given by a table of
    bodies, and the messages and clients the examples below run on. *)

Definition dquote : string := String "034"%char "".
Definition quoted (s : string) : string := dquote ++ s ++ dquote.

(** An empty JSON object. *)
Definition emptyObjectBody : string := "{}".
(** An object whose only member, [results], is an array of two empty
    objects. *)
Definition twoResultsBody : string := "{" ++ quoted "results" ++ ":[{},{}]}".
(** One delivered message: [multicast_id] 123, [success] 1, [failure] 0,
    [canonical_ids] 0, and one result whose [message_id] is [m1]. *)
Definition deliveredBody : string :=
  "{" ++ quoted "multicast_id" ++ ":123," ++ quoted "success" ++ ":1,"
      ++ quoted "failure" ++ ":0," ++ quoted "canonical_ids" ++ ":0,"
      ++ quoted "results" ++ ":[{" ++ quoted "message_id" ++ ":" ++ quoted "m1" ++ "}]}".
Definition htmlBody : string := "<html>Bad Gateway</html>".

(** What [json.Unmarshal] makes of the bodies above; a body outside the
    table counts as unparsable, as [htmlBody] is. *)
Definition decodeTable (body : string) : option Response :=
  if (body =? emptyObjectBody)%string then Some (mkResponse 0 0 0 0 [])
  else if (body =? twoResultsBody)%string then Some (mkResponse 0 0 0 0 [zeroResult; zeroResult])
  else if (body =? deliveredBody)%string then Some (mkResponse 123 1 0 0 [mkResult "m1" "" ""])
  else None.

(** The identifiers of a message as a JSON array under [registration_ids]. *)
Definition marshalIDs (message : Message) : string :=
  "{" ++ quoted "registration_ids" ++ ":["
      ++ String.concat "," (quoted <$> RegistrationIDs message) ++ "]}".

(** The [n]-th request is answered by the [n]-th entry; none is left after
    the script, and the transport fails. *)
Definition scripted (answers : list (option HTTPResponse)) : HTTPClientT :=
  fun log _ => mjoin (answers !! length log).

Definition ok200 (body : string) : option HTTPResponse :=
  Some (mkHTTPResponse 200 (mkBody body None)).

Definition status (code : Z) : option HTTPResponse :=
  Some (mkHTTPResponse code (mkBody "" None)).

Definition brokenBody : option HTTPResponse :=
  Some (mkHTTPResponse 200 (mkBody "{" (Some "unexpected EOF"))).

Definition testEnv : Env := {|
  Timeout := "Timeout";
  AuthenticationError := "AuthenticationError";
  InternalServerError := "InternalServerError";
  InvalidJSON := "InvalidJSON";
  json_Marshal := marshalIDs;
  json_Unmarshal := decodeTable;
  url_Parse := fun url => negb (String.prefix ":" url);
  http_DefaultClient := scripted [];
  encode := Encoder.encode 1000
|}.

Definition clientWith (answers : list (option HTTPResponse)) : Client :=
  mkClient "secret" Gateway (scripted answers).

Definition messageTo (ids : list string) : Message :=
  mkMessage ids [] "" 0 "" false false.

(** The request [send] builds for [messageTo ids] on [clientWith _]. *)
Definition requestTo (ids : list string) : Request :=
  mkRequest "POST" Gateway
    [("Authorization", "key=secret"); ("Content-Type", "application/json")]
    (marshalIDs (messageTo ids)).

(** A delivery whose result carries a [registration_id] of the gateway's
    own, with [canonical_ids] 1; the rest as [deliveredBody]. *)
Definition canonicalBody (canonical : string) : string :=
  "{" ++ quoted "multicast_id" ++ ":123," ++ quoted "success" ++ ":1,"
      ++ quoted "failure" ++ ":0," ++ quoted "canonical_ids" ++ ":1,"
      ++ quoted "results" ++ ":[{" ++ quoted "message_id" ++ ":" ++ quoted "m1" ++ ","
      ++ quoted "registration_id" ++ ":" ++ quoted canonical ++ "}]}".

(** [decodeTable] with [canonicalBody] for the identifiers [C1] and [C2]
    added. *)
Definition decodeCanonical (body : string) : option Response :=
  if (body =? canonicalBody "C1")%string
  then Some (mkResponse 123 1 0 1 [mkResult "m1" "C1" ""])
  else if (body =? canonicalBody "C2")%string
  then Some (mkResponse 123 1 0 1 [mkResult "m1" "C2" ""])
  else decodeTable body.

Definition canonicalEnv : Env := {|
  Timeout := "Timeout";
  AuthenticationError := "AuthenticationError";
  InternalServerError := "InternalServerError";
  InvalidJSON := "InvalidJSON";
  json_Marshal := marshalIDs;
  json_Unmarshal := decodeCanonical;
  url_Parse := fun url => negb (String.prefix ":" url);
  http_DefaultClient := scripted [];
  encode := Encoder.encode 1000
|}.

(** * Properties *)

(** ** Indexed loops *)

Section Loops.

Implicit Types (ids : list string) (results : list Result).

Lemma take_S_insert {A} (l : list A) (i : nat) (x : A) :
  (i < length l)%nat -> take (S i) (<[i := x]> l) = take i l ++ [x].
Proof.
  intros Hlt.
  rewrite (take_S_r (<[i := x]> l) i x) by (by apply list_lookup_insert_eq).
  by rewrite take_insert_ge by lia.
Qed.

(** Filling a slice by index never leaves it: the window
    [idx .. idx + len ids) is replaced by the images of the identifiers. *)
Lemma rangeFrom_store (f : string -> Result) ids : forall idx results,
  (idx + length ids <= length results)%nat ->
  rangeFrom idx ids (fun i registrationID => storeAt i (f registrationID)) results
  = Returned (take idx results ++ (f <$> ids) ++ drop (idx + length ids) results).
Proof.
  induction ids as [|registrationID ids IH]; intros idx results Hlen; simpl in *.
  - by rewrite Nat.add_0_r, take_drop.
  - unfold storeAt at 1. destruct (decide (idx < length results)%nat) as [Hlt|]; [|lia].
    rewrite IH by (rewrite length_insert; lia).
    rewrite take_S_insert by done.
    rewrite drop_insert_lt by lia.
    rewrite <- app_assoc. simpl. by rewrite Nat.add_succ_r.
Qed.

(** Re-stamping stays in bounds when the slice covers the window. *)
Lemma rangeFrom_stamp ids : forall idx results,
  (idx + length ids <= length results)%nat ->
  rangeFrom idx ids stampAt results
  = Returned (take idx results
              ++ zip_with setRegistrationID ids (drop idx results)
              ++ drop (idx + length ids) results).
Proof.
  induction ids as [|registrationID ids IH]; intros idx results Hlen; simpl in *.
  - by rewrite Nat.add_0_r, take_drop.
  - unfold stampAt at 1.
    destruct (results !! idx) as [r|] eqn:Hr;
      [|apply lookup_ge_None in Hr; lia].
    rewrite IH by (rewrite length_insert; lia).
    rewrite take_S_insert by lia.
    rewrite !drop_insert_lt by lia.
    rewrite (drop_S results r idx Hr). simpl.
    rewrite <- app_assoc. simpl. by rewrite Nat.add_succ_r.
Qed.

(** A slice that ends inside the window stops the loop at its first missing
    index, which is its length. *)
Lemma rangeFrom_stamp_short ids : forall idx results,
  (idx <= length results < idx + length ids)%nat ->
  rangeFrom idx ids stampAt results
  = Panicked (IndexOutOfRange (length results) (length results)).
Proof.
  induction ids as [|registrationID ids IH]; intros idx results Hlen; simpl in *.
  - lia.
  - unfold stampAt at 1. destruct (results !! idx) as [r|] eqn:Hr.
    + apply lookup_lt_Some in Hr.
      rewrite IH by (rewrite length_insert; lia).
      by rewrite length_insert.
    + apply lookup_ge_None in Hr. by replace idx with (length results) by lia.
Qed.

Lemma failureResponse_eq (errorMessage : string) (message : Message) :
  failureResponse errorMessage message
  = Returned (mkResponse (-1) 0 (Z.of_nat (length (RegistrationIDs message))) 0
                (errorResult errorMessage <$> RegistrationIDs message)).
Proof.
  unfold failureResponse.
  rewrite rangeFrom_store by (rewrite length_replicate; lia).
  simpl. rewrite drop_ge by (rewrite length_replicate; lia).
  by rewrite app_nil_r.
Qed.

End Loops.

(** ** [send] *)

Section SendTheory.

Context `{env : Env}.

Implicit Types (m : Client) (message : Message) (log : Log) (request : Request).

(** [send] after the request is built: one call to the transport, then the
    branch on its answer. *)
Lemma send_built m message log request :
  buildRequest m message = Some request ->
  send m message log
  = (match HTTPClient m log request with
     | None => failureResponse Timeout message
     | Some httpResponse =>
         if negb (StatusCode httpResponse =? StatusOK)%Z then
           failureResponse
             (if (StatusCode httpResponse =? StatusUnauthorized)%Z
              then AuthenticationError else InternalServerError) message
         else decode message httpResponse
     end, log ++ [request]).
Proof.
  intros Hreq. unfold send. rewrite Hreq. unfold bind, Do, lift.
  destruct (HTTPClient m log request) as [httpResponse|]; [|done].
  by destruct (negb _).
Qed.

(** A nil request: [request.Header.Add] dereferences it before anything is
    sent. *)
Lemma send_nil_request m message log :
  buildRequest m message = None ->
  send m message log = (Panicked NilDereference, log).
Proof. intros Hreq. unfold send. by rewrite Hreq. Qed.

(** The 200 branch with a body that reads and parses, and results that cover
    the identifiers. *)
Lemma decode_parsed message httpResponse parsed :
  readError (Body httpResponse) = None ->
  json_Unmarshal (contents (Body httpResponse)) = Some parsed ->
  (length (RegistrationIDs message) <= length (Results parsed))%nat ->
  decode message httpResponse
  = Returned (setResults
      (zip_with setRegistrationID (RegistrationIDs message) (Results parsed)
       ++ drop (length (RegistrationIDs message)) (Results parsed)) parsed).
Proof.
  intros Hread Hjson Hlen. unfold decode, ioutil_ReadAll.
  rewrite Hread, Hjson. by rewrite rangeFrom_stamp by (simpl; lia).
Qed.

Lemma decode_short message httpResponse parsed :
  readError (Body httpResponse) = None ->
  json_Unmarshal (contents (Body httpResponse)) = Some parsed ->
  (length (Results parsed) < length (RegistrationIDs message))%nat ->
  decode message httpResponse
  = Panicked (IndexOutOfRange (length (Results parsed)) (length (Results parsed))).
Proof.
  intros Hread Hjson Hlen. unfold decode, ioutil_ReadAll.
  rewrite Hread, Hjson. by rewrite rangeFrom_stamp_short by (simpl; lia).
Qed.

Lemma decode_invalid message httpResponse :
  readError (Body httpResponse) <> None
  \/ json_Unmarshal (contents (Body httpResponse)) = None ->
  decode message httpResponse = failureResponse InvalidJSON message.
Proof.
  intros Hbad. unfold decode, ioutil_ReadAll.
  destruct (readError (Body httpResponse)) as [e|]; [done|].
  destruct Hbad as [Hbad|Hbad]; [done|]. by rewrite Hbad.
Qed.

(** C3. When the transport yields no response object, [send] returns the
    synthetic response: [MulticastID = -1], [Success = 0],
    [Failure = len(RegistrationIDs)], [CanonicalIDs = 0], and at every index
    a result with error [Timeout] and the identifier of that index. *)
Theorem send_transport_failure m message log request :
  buildRequest m message = Some request ->
  HTTPClient m log request = None ->
  send m message log
  = (Returned (mkResponse (-1) 0 (Z.of_nat (length (RegistrationIDs message))) 0
                 (errorResult Timeout <$> RegistrationIDs message)),
     log ++ [request]).
Proof.
  intros Hreq Hnil. rewrite (send_built _ _ _ _ Hreq), Hnil.
  by rewrite failureResponse_eq.
Qed.

(** C4. On a response whose status is not 200, [send] returns the synthetic
    response in which every result carries one error kind and the identifier
    of its index: [AuthenticationError] for 401, [InternalServerError] for
    every other status. *)
Theorem send_bad_status m message log request httpResponse :
  buildRequest m message = Some request ->
  HTTPClient m log request = Some httpResponse ->
  StatusCode httpResponse <> StatusOK ->
  exists errorMessage,
    send m message log
    = (Returned (mkResponse (-1) 0 (Z.of_nat (length (RegistrationIDs message))) 0
                   (errorResult errorMessage <$> RegistrationIDs message)),
       log ++ [request])
    /\ (StatusCode httpResponse = StatusUnauthorized -> errorMessage = AuthenticationError)
    /\ (StatusCode httpResponse <> StatusUnauthorized -> errorMessage = InternalServerError).
Proof.
  intros Hreq Hresp Hstatus.
  rewrite (send_built _ _ _ _ Hreq), Hresp.
  apply Z.eqb_neq in Hstatus. rewrite Hstatus. simpl.
  rewrite failureResponse_eq.
  destruct (Z.eqb_spec (StatusCode httpResponse) StatusUnauthorized) as [Heq|Hne];
    eexists; (split; [reflexivity|]); split; intros; congruence.
Qed.

(** C5. On a 200 response whose body cannot be read or does not parse,
    [send] returns the synthetic response, [MulticastID = -1], in which every
    result carries [InvalidJSON] and the identifier of its index. *)
Theorem send_invalid_body m message log request httpResponse :
  buildRequest m message = Some request ->
  HTTPClient m log request = Some httpResponse ->
  StatusCode httpResponse = StatusOK ->
  readError (Body httpResponse) <> None
  \/ json_Unmarshal (contents (Body httpResponse)) = None ->
  send m message log
  = (Returned (mkResponse (-1) 0 (Z.of_nat (length (RegistrationIDs message))) 0
                 (errorResult InvalidJSON <$> RegistrationIDs message)),
     log ++ [request]).
Proof.
  intros Hreq Hresp Hstatus Hbad.
  rewrite (send_built _ _ _ _ Hreq), Hresp, Hstatus. simpl.
  by rewrite decode_invalid, failureResponse_eq.
Qed.

(** The 200 branch with a parsed body whose results cover the identifiers:
    the parsed response comes back with the first [len(RegistrationIDs)]
    results re-stamped and everything else as parsed. *)
Lemma send_parsed m message log request httpResponse parsed :
  buildRequest m message = Some request ->
  HTTPClient m log request = Some httpResponse ->
  StatusCode httpResponse = StatusOK ->
  readError (Body httpResponse) = None ->
  json_Unmarshal (contents (Body httpResponse)) = Some parsed ->
  (length (RegistrationIDs message) <= length (Results parsed))%nat ->
  send m message log
  = (Returned (setResults
       (zip_with setRegistrationID (RegistrationIDs message) (Results parsed)
        ++ drop (length (RegistrationIDs message)) (Results parsed)) parsed),
     log ++ [request]).
Proof.
  intros Hreq Hresp Hstatus Hread Hjson Hlen.
  rewrite (send_built _ _ _ _ Hreq), Hresp, Hstatus. simpl.
  by rewrite (decode_parsed _ _ _ Hread Hjson Hlen).
Qed.


(** C1, amended. On transport failure, on a status other than 200 and on a
    200 response whose body cannot be read or parsed, [send] returns a
    response with [len(Results) = len(RegistrationIDs)]; on a 200 response
    with a parsed body it does so when the parsed results array has exactly
    [len(RegistrationIDs)] entries. *)
Theorem send_results_length m message log request :
  buildRequest m message = Some request ->
  (forall httpResponse parsed,
      HTTPClient m log request = Some httpResponse ->
      StatusCode httpResponse = StatusOK ->
      readError (Body httpResponse) = None ->
      json_Unmarshal (contents (Body httpResponse)) = Some parsed ->
      length (Results parsed) = length (RegistrationIDs message)) ->
  exists response,
    fst (send m message log) = Returned response
    /\ length (Results response) = length (RegistrationIDs message).
Proof.
  intros Hreq Hfit. rewrite (send_built _ _ _ _ Hreq). simpl.
  assert (Hfail : forall e, exists response,
             failureResponse e message = Returned response
             /\ length (Results response) = length (RegistrationIDs message)).
  { intros e. rewrite failureResponse_eq. eexists; split; [reflexivity|].
    simpl. by rewrite length_fmap. }
  destruct (HTTPClient m log request) as [httpResponse|] eqn:Hresp; [|apply Hfail].
  destruct (Z.eqb_spec (StatusCode httpResponse) StatusOK) as [Hok|Hbad];
    simpl; [|apply Hfail].
  destruct (readError (Body httpResponse)) as [e|] eqn:Hread.
  { rewrite decode_invalid by (left; congruence). apply Hfail. }
  destruct (json_Unmarshal (contents (Body httpResponse))) as [parsed|] eqn:Hjson.
  - specialize (Hfit _ _ eq_refl Hok Hread Hjson).
    rewrite (decode_parsed _ _ _ Hread Hjson) by lia.
    eexists; split; [reflexivity|]. simpl.
    rewrite length_app, length_zip_with, length_drop. lia.
  - rewrite decode_invalid by (by right). apply Hfail.
Qed.

(** C10. On the 200 branch with a parsed body, the re-stamping loop indexes
    the parsed results at every index of the identifier list and only the
    run-time check guards it: with at least [len(RegistrationIDs)] results
    every index is in bounds and [send] returns, and with fewer the loop
    reaches the first index past the results and [send] panics there. *)
Theorem send_restamp_bounds m message log request httpResponse parsed :
  buildRequest m message = Some request ->
  HTTPClient m log request = Some httpResponse ->
  StatusCode httpResponse = StatusOK ->
  readError (Body httpResponse) = None ->
  json_Unmarshal (contents (Body httpResponse)) = Some parsed ->
  ((length (RegistrationIDs message) <= length (Results parsed))%nat ->
     exists response, fst (send m message log) = Returned response)
  /\ ((length (Results parsed) < length (RegistrationIDs message))%nat ->
     fst (send m message log)
     = Panicked (IndexOutOfRange (length (Results parsed)) (length (Results parsed))))
  /\ ((exists response, fst (send m message log) = Returned response) ->
     (length (RegistrationIDs message) <= length (Results parsed))%nat).
Proof.
  intros Hreq Hresp Hstatus Hread Hjson.
  assert (Hshort : (length (Results parsed) < length (RegistrationIDs message))%nat ->
     fst (send m message log)
     = Panicked (IndexOutOfRange (length (Results parsed)) (length (Results parsed)))).
  { intros Hlt. rewrite (send_built _ _ _ _ Hreq), Hresp, Hstatus. simpl.
    by rewrite (decode_short _ _ _ Hread Hjson Hlt). }
  split; [|split].
  - intros Hlen.
    rewrite (send_parsed _ _ _ _ _ _ Hreq Hresp Hstatus Hread Hjson Hlen).
    by eexists.
  - done.
  - intros [response Hret].
    destruct (le_lt_dec (length (RegistrationIDs message)) (length (Results parsed)))
      as [Hle|Hlt]; [done|].
    rewrite (Hshort Hlt) in Hret. discriminate.
Qed.

End SendTheory.

(** ** [SendMessage] *)

Section SendMessageTheory.

Context `{env : Env}.

Implicit Types (m : Client) (message : Message) (log : Log).

(** A [send] that returns has handed exactly one request to the transport. *)
Lemma send_returned_log m message log response :
  fst (send m message log) = Returned response ->
  exists request,
    buildRequest m message = Some request
    /\ snd (send m message log) = log ++ [request].
Proof.
  destruct (buildRequest m message) as [request|] eqn:Hreq.
  - intros _. exists request. split; [done|]. by rewrite (send_built _ _ _ _ Hreq).
  - by rewrite (send_nil_request _ _ _ Hreq).
Qed.

Lemma sendAll_length m messages : forall log rs log',
  sendAll m messages log = (Returned rs, log') -> length rs = length messages.
Proof.
  induction messages as [|message rest IH]; intros log rs log' Hall; simpl in Hall.
  - by injection Hall as <- _.
  - unfold bind in Hall.
    destruct (send m message log) as [[r|p] log1]; [|done].
    destruct (sendAll m rest log1) as [[rs1|p] log2] eqn:Hrest; [|done].
    injection Hall as <- _. simpl. f_equal. by eapply IH.
Qed.

(** The indexed loop writes the responses of [sendAll] into the window
    [idx .. idx + len messages) and stops where [sendAll] stops. *)
Lemma sendFrom_sendAll m messages : forall idx responses log,
  (idx + length messages <= length responses)%nat ->
  sendFrom m idx messages responses log
  = match sendAll m messages log with
    | (Returned rs, log') =>
        (Returned (take idx responses ++ (Some <$> rs)
                   ++ drop (idx + length messages) responses), log')
    | (Panicked p, log') => (Panicked p, log')
    end.
Proof.
  induction messages as [|message rest IH]; intros idx responses log Hlen; simpl in *.
  - unfold ret. by rewrite Nat.add_0_r, take_drop.
  - unfold bind. destruct (send m message log) as [[r|p] log1]; [|done].
    unfold lift, storeAt.
    destruct (decide (idx < length responses)%nat) as [Hlt|]; [|lia].
    rewrite IH by (rewrite length_insert; lia).
    destruct (sendAll m rest log1) as [[rs|p] log2]; [|done].
    unfold ret. rewrite take_S_insert by done.
    rewrite drop_insert_lt by lia.
    rewrite <- app_assoc. simpl. by rewrite Nat.add_succ_r.
Qed.

Lemma SendMessage_sendAll m message log :
  SendMessage m (Some message) log
  = match sendAll m (encode message) log with
    | (Returned rs, log') => (Returned (Some <$> rs), log')
    | (Panicked p, log') => (Panicked p, log')
    end.
Proof.
  unfold SendMessage.
  rewrite sendFrom_sendAll by (rewrite length_replicate; lia).
  destruct (sendAll m (encode message) log) as [[rs|p] log'] eqn:Hall; [|done].
  simpl. rewrite drop_ge by (rewrite length_replicate; lia).
  by rewrite app_nil_r.
Qed.

(** When no [send] panics, every wire message is sent, in order, whatever
    the responses before it were. *)
Lemma sendAll_returns m messages :
  (forall w log, w ∈ messages -> exists r, fst (send m w log) = Returned r) ->
  forall log, exists rs requests,
    sendAll m messages log = (Returned rs, log ++ requests)
    /\ Forall2 (fun w request => buildRequest m w = Some request) messages requests.
Proof.
  induction messages as [|message rest IH]; intros Hsafe log; simpl.
  - exists [], []. by rewrite app_nil_r.
  - destruct (Hsafe message log) as [r Hr]; [by left|].
    destruct (send_returned_log _ _ _ _ Hr) as (request & Hreq & Hlog).
    destruct (IH (fun w l Hw => Hsafe w l (list_elem_of_further _ _ _ Hw))
                 (log ++ [request])) as (rs & requests & Hall & Hreqs).
    exists (r :: rs), (request :: requests). split; [|by constructor].
    unfold bind.
    destruct (send m message log) as [o log1]. simpl in Hr, Hlog. subst o log1.
    rewrite Hall. unfold ret. by rewrite <- app_assoc.
Qed.

(** One response per wire message, none left nil, one request per wire
    message, provided no [send] panics. *)
Lemma SendMessage_returns m message log :
  (forall w log', w ∈ encode message -> exists r, fst (send m w log') = Returned r) ->
  exists rs requests,
    SendMessage m (Some message) log = (Returned (Some <$> rs), log ++ requests)
    /\ sendAll m (encode message) log = (Returned rs, log ++ requests)
    /\ length rs = length (encode message)
    /\ Forall2 (fun w request => buildRequest m w = Some request)
         (encode message) requests.
Proof.
  intros Hsafe.
  destruct (sendAll_returns m (encode message) Hsafe log)
    as (rs & requests & Hall & Hreqs).
  exists rs, requests. rewrite SendMessage_sendAll, Hall.
  repeat split; try done. by eapply sendAll_length.
Qed.

(** C6. For a nil message [SendMessage] returns the nil slice, without a
    panic, and hands no request to the transport: no batch is attempted. *)
Theorem SendMessage_nil m log :
  SendMessage m None log = (Returned [], log).
Proof. unfold SendMessage, ret. reflexivity. Qed.

End SendMessageTheory.

(** ** [CreateClient] *)

Section CreateClientTheory.

Context `{env : Env}.

(** C9, amended. [CreateClient] takes an API key and a gateway URL, both
    strings, and stores them as given, the empty URL included; the production
    endpoint is the constant [Gateway], which reaches the client only when
    the caller passes it.  The transport is [http.DefaultClient]. *)
Theorem CreateClient_fields (apiKey gateway : string) :
  APIKey (CreateClient apiKey gateway) = apiKey
  /\ ClientGateway (CreateClient apiKey gateway) = gateway
  /\ HTTPClient (CreateClient apiKey gateway) = http_DefaultClient
  /\ ClientGateway (CreateClient apiKey Gateway)
     = "https://android.googleapis.com/gcm/send".
Proof. by repeat split. Qed.

End CreateClientTheory.

(** ** The encoder *)

Section EncoderTheory.

Import Encoder.

Variable limit : nat.
Hypothesis limit_pos : (0 < limit)%nat.

Lemma ceilDiv_step (k : nat) :
  (0 < k)%nat -> ceilDiv k limit = S (ceilDiv (k - limit) limit).
Proof using limit_pos.
  intros Hk. unfold ceilDiv.
  replace (k + limit - 1)%nat with ((k - 1) + 1 * limit)%nat by lia.
  rewrite Nat.div_add by lia.
  destruct (le_lt_dec k limit) as [Hle|Hgt].
  - replace (k - limit)%nat with 0%nat by lia.
    rewrite !Nat.div_small by lia. lia.
  - replace (k - limit + limit - 1)%nat with (k - 1)%nat by lia. lia.
Qed.

Lemma chunks_concat fuel : forall ids : list string,
  (length ids <= fuel)%nat -> concat (chunks fuel limit ids) = ids.
Proof using limit_pos.
  induction fuel as [|fuel IH]; intros ids Hlen.
  - by destruct ids; [|simpl in Hlen; lia].
  - destruct ids as [|registrationID ids]; [done|].
    cbn [chunks concat].
    rewrite IH by (rewrite length_drop; simpl in *; lia).
    apply take_drop.
Qed.

Lemma chunks_bounded fuel : forall ids : list string,
  Forall (fun chunk => (length chunk <= limit)%nat) (chunks fuel limit ids).
Proof.
  induction fuel as [|fuel IH]; intros ids; [constructor|].
  destruct ids as [|registrationID ids]; [constructor|].
  cbn [chunks]. constructor; [|apply IH].
  rewrite length_take. lia.
Qed.

Lemma chunks_length fuel : forall ids : list string,
  (length ids <= fuel)%nat ->
  length (chunks fuel limit ids) = ceilDiv (length ids) limit.
Proof using limit_pos.
  induction fuel as [|fuel IH]; intros ids Hlen.
  - destruct ids; [|simpl in Hlen; lia].
    unfold ceilDiv. simpl. by rewrite Nat.div_small by lia.
  - destruct ids as [|registrationID ids].
    + unfold ceilDiv. simpl. by rewrite Nat.div_small by lia.
    + cbn [chunks length].
      rewrite IH by (rewrite length_drop; simpl in *; lia).
      rewrite length_drop. simpl length.
      by rewrite (ceilDiv_step (S (length ids))) by lia.
Qed.

Lemma encode_ids (message : Message) :
  RegistrationIDs <$> encode limit message
  = chunks (length (RegistrationIDs message)) limit (RegistrationIDs message).
Proof.
  unfold encode.
  induction (chunks _ limit (RegistrationIDs message)) as [|chunk rest IH]; [done|].
  simpl. by f_equal.
Qed.

(** C8. With [k] identifiers and batch limit [L], [encode] yields
    [ceil(k/L)] wire messages, each with at most [L] identifiers and the
    payload and options of the original, and their identifier lists
    concatenate, in order, to the original list. *)
Theorem encode_partition (message : Message) :
  length (encode limit message) = ceilDiv (length (RegistrationIDs message)) limit
  /\ Forall (fun w => (length (RegistrationIDs w) <= limit)%nat /\ samePayload w message)
       (encode limit message)
  /\ concat (RegistrationIDs <$> encode limit message) = RegistrationIDs message.
Proof using limit_pos.
  split; [|split].
  - rewrite <- (length_fmap RegistrationIDs), encode_ids. by apply chunks_length.
  - unfold encode. apply Forall_fmap.
    eapply Forall_impl; [apply chunks_bounded|].
    intros chunk Hchunk. simpl. split; [done|]. by repeat split.
  - rewrite encode_ids. by apply chunks_concat.
Qed.

End EncoderTheory.

(** ** Concrete runs *)

(** Transport down, identifiers [A] and [B]. *)
Lemma send_transport_failure_witness :
  @send testEnv (clientWith []) (messageTo ["A"; "B"]) []
  = (Returned (mkResponse (-1) 0 2 0
                 [mkResult "" "A" "Timeout"; mkResult "" "B" "Timeout"]),
     [requestTo ["A"; "B"]]).
Proof.
  apply (@send_transport_failure testEnv (clientWith []) (messageTo ["A"; "B"]) []
           (requestTo ["A"; "B"])); reflexivity.
Defined.

(** A 401 answer. *)
Lemma send_bad_status_witness :
  exists errorMessage,
    @send testEnv (clientWith [status 401]) (messageTo ["A"; "B"]) []
    = (Returned (mkResponse (-1) 0 2 0
                   [mkResult "" "A" errorMessage; mkResult "" "B" errorMessage]),
       [requestTo ["A"; "B"]])
    /\ (401 = StatusUnauthorized -> errorMessage = "AuthenticationError")
    /\ (401 <> StatusUnauthorized -> errorMessage = "InternalServerError").
Proof.
  apply (@send_bad_status testEnv (clientWith [status 401]) (messageTo ["A"; "B"]) []
           (requestTo ["A"; "B"]) (mkHTTPResponse 401 (mkBody "" None)));
    [reflexivity | reflexivity | vm_compute; discriminate].
Defined.

(** A 200 answer that is not JSON. *)
Lemma send_invalid_body_witness :
  @send testEnv (clientWith [ok200 htmlBody]) (messageTo ["A"; "B"]) []
  = (Returned (mkResponse (-1) 0 2 0
                 [mkResult "" "A" "InvalidJSON"; mkResult "" "B" "InvalidJSON"]),
     [requestTo ["A"; "B"]]).
Proof.
  apply (@send_invalid_body testEnv (clientWith [ok200 htmlBody]) (messageTo ["A"; "B"]) []
           (requestTo ["A"; "B"]) (mkHTTPResponse 200 (mkBody htmlBody None)));
    [reflexivity | reflexivity | reflexivity | right; reflexivity].
Defined.

(** The delivered message of the spec, one identifier and one result. *)
Lemma send_results_length_witness :
  exists response,
    fst (@send testEnv (clientWith [ok200 deliveredBody]) (messageTo ["R1"]) [])
    = Returned response
    /\ length (Results response) = length (RegistrationIDs (messageTo ["R1"])).
Proof.
  apply (@send_results_length testEnv (clientWith [ok200 deliveredBody])
           (messageTo ["R1"]) [] (requestTo ["R1"])); [reflexivity|].
  intros httpResponse parsed Hresp _ _ Hjson.
  vm_compute in Hresp. injection Hresp as <-.
  vm_compute in Hjson. injection Hjson as <-.
  reflexivity.
Defined.

(** C1, as stated, fails: a parsed body with two results for one identifier
    comes back with both. *)
Lemma send_results_length_counterexample :
  exists response,
    fst (@send testEnv (clientWith [ok200 twoResultsBody]) (messageTo ["R1"]) [])
    = Returned response
    /\ length (Results response) <> length (RegistrationIDs (messageTo ["R1"])).
Proof. eexists. split; [vm_compute; reflexivity|]. vm_compute. discriminate. Qed.

(** A 200 answer whose body is the empty object parses, with no results;
    for a wire message with one identifier the first indexed write panics,
    after the request was sent. *)
Example send_empty_object_panics :
  json_Unmarshal (Env := testEnv) emptyObjectBody = Some (mkResponse 0 0 0 0 [])
  /\ @send testEnv (clientWith [ok200 emptyObjectBody]) (messageTo ["R1"]) []
     = (Panicked (IndexOutOfRange 0 0), [requestTo ["R1"]]).
Proof. split; vm_compute; reflexivity. Qed.



(** The delivered message of the spec comes back stamped with [R1]. *)
Example send_delivered :
  fst (@send testEnv (clientWith [ok200 deliveredBody]) (messageTo ["R1"]) [])
  = Returned (mkResponse 123 1 0 0 [mkResult "m1" "R1" ""]).
Proof. vm_compute. reflexivity. Qed.

Lemma send_restamp_bounds_witness :
  ((length (RegistrationIDs (messageTo ["R1"]))
    <= length (Results (mkResponse 123 1 0 0 [mkResult "m1" "" ""])))%nat ->
   exists response,
     fst (@send testEnv (clientWith [ok200 deliveredBody]) (messageTo ["R1"]) [])
     = Returned response)
  /\ ((length (Results (mkResponse 123 1 0 0 [mkResult "m1" "" ""]))
       < length (RegistrationIDs (messageTo ["R1"])))%nat ->
      fst (@send testEnv (clientWith [ok200 deliveredBody]) (messageTo ["R1"]) [])
      = Panicked (IndexOutOfRange 1 1))
  /\ ((exists response,
         fst (@send testEnv (clientWith [ok200 deliveredBody]) (messageTo ["R1"]) [])
         = Returned response) ->
      (length (RegistrationIDs (messageTo ["R1"]))
       <= length (Results (mkResponse 123 1 0 0 [mkResult "m1" "" ""])))%nat).
Proof.
  apply (@send_restamp_bounds testEnv (clientWith [ok200 deliveredBody])
           (messageTo ["R1"]) [] (requestTo ["R1"])
           (mkHTTPResponse 200 (mkBody deliveredBody None))
           (mkResponse 123 1 0 0 [mkResult "m1" "" ""])); reflexivity.
Defined.

(** C7. 1001 identifiers make two wire messages.  The first answer is a
    200 with the empty object, the second would be a delivery: [SendMessage]
    panics inside the first [send], returns no response, and the second wire
    message is never handed to the transport. *)
Theorem SendMessage_stops_at_panic :
  length (encode (Env := testEnv) (messageTo (replicate 1001 "R"))) = 2%nat
  /\ @SendMessage testEnv (clientWith [ok200 emptyObjectBody; ok200 deliveredBody])
       (Some (messageTo (replicate 1001 "R"))) []
     = (Panicked (IndexOutOfRange 0 0), [requestTo (replicate 1000 "R")]).
Proof. split; vm_compute; reflexivity. Qed.

(** A gateway URL that [http.NewRequest] rejects: the nil request is
    dereferenced and nothing is sent. *)
Example SendMessage_nil_request :
  @SendMessage testEnv (mkClient "secret" ":" (scripted [])) (Some (messageTo ["R1"])) []
  = (Panicked NilDereference, []).
Proof. vm_compute. reflexivity. Qed.

(** C9, as stated, fails: an empty gateway URL is kept, not replaced by the
    production endpoint. *)
Lemma CreateClient_no_default :
  ClientGateway (@CreateClient testEnv "secret" "") <> Gateway.
Proof. vm_compute. discriminate. Qed.

(** Limit 2 and five identifiers: three wire messages. *)
Lemma encode_partition_witness :
  length (Encoder.encode 2 (messageTo ["a"; "b"; "c"; "d"; "e"])) = 3%nat
  /\ Forall (fun w => (length (RegistrationIDs w) <= 2)%nat
                      /\ Encoder.samePayload w (messageTo ["a"; "b"; "c"; "d"; "e"]))
       (Encoder.encode 2 (messageTo ["a"; "b"; "c"; "d"; "e"]))
  /\ concat (RegistrationIDs <$> Encoder.encode 2 (messageTo ["a"; "b"; "c"; "d"; "e"]))
     = ["a"; "b"; "c"; "d"; "e"].
Proof.
  apply (encode_partition 2 ltac:(lia) (messageTo ["a"; "b"; "c"; "d"; "e"])).
Defined.

(** 2500 identifiers under the limit 1000: batches of 1000, 1000 and 500;
    with the transport down, three responses of those sizes. *)
Example encode_2500 :
  (fun w => length (RegistrationIDs w))
    <$> Encoder.encode 1000 (messageTo (replicate 2500 "R"))
  = [1000; 1000; 500]%nat.
Proof. vm_compute. reflexivity. Qed.

Example SendMessage_2500 :
  match fst (@SendMessage testEnv (clientWith []) (Some (messageTo (replicate 2500 "R"))) []) with
  | Returned responses =>
      (fun r => match r with Some r => length (Results r) | None => 0%nat end) <$> responses
  | Panicked _ => []
  end = [1000; 1000; 500]%nat.
Proof. vm_compute. reflexivity. Qed.

(** * Further properties of [send] *)

Section SendFurther.

Context `{env : Env}.

Implicit Types (m : Client) (message : Message) (log : Log) (request : Request).

Lemma buildRequest_accepted m message :
  url_Parse (ClientGateway m) = true ->
  buildRequest m message
  = Some (mkRequest "POST" (ClientGateway m)
            [("Authorization", ("key=" ++ APIKey m)%string);
             ("Content-Type", "application/json")]
            (json_Marshal message)).
Proof. intros Hurl. unfold buildRequest, http_NewRequest. by rewrite Hurl. Qed.


(** Once the request is built, [send] ends in one of the three synthetic
    blocks or in the parsed branch. *)
Lemma send_classify m message log request :
  buildRequest m message = Some request ->
  (exists errorMessage,
      fst (send m message log) = failureResponse errorMessage message)
  \/ (exists httpResponse parsed,
        HTTPClient m log request = Some httpResponse
        /\ StatusCode httpResponse = StatusOK
        /\ readError (Body httpResponse) = None
        /\ json_Unmarshal (contents (Body httpResponse)) = Some parsed
        /\ fst (send m message log) = decode message httpResponse).
Proof.
  intros Hreq. rewrite (send_built _ _ _ _ Hreq). simpl.
  destruct (HTTPClient m log request) as [httpResponse|] eqn:Hresp;
    [|left; by eexists].
  destruct (Z.eqb_spec (StatusCode httpResponse) StatusOK) as [Hok|Hbad];
    simpl; [|left; by eexists].
  destruct (readError (Body httpResponse)) as [e|] eqn:Hread.
  { left. exists InvalidJSON. apply decode_invalid. left. congruence. }
  destruct (json_Unmarshal (contents (Body httpResponse))) as [parsed|] eqn:Hjson.
  - right. by exists httpResponse, parsed.
  - left. exists InvalidJSON. apply decode_invalid. by right.
Qed.

Lemma fmap_RegistrationID_errorResult (e : string) (ids : list string) :
  RegistrationID <$> (errorResult e <$> ids) = ids.
Proof. induction ids as [|registrationID ids IH]; [done|]. simpl. by f_equal. Qed.

Lemma fmap_RegistrationID_stamped (ids : list string) : forall results : list Result,
  (length ids <= length results)%nat ->
  RegistrationID <$> zip_with setRegistrationID ids results = ids.
Proof.
  induction ids as [|registrationID ids IH]; intros results Hlen; [done|].
  destruct results as [|r results]; simpl in *; [lia|].
  f_equal. apply IH. lia.
Qed.

(** Stamping forgets the identifier a result had. *)
Lemma zip_with_stamp_blank (ids : list string) : forall results : list Result,
  zip_with setRegistrationID ids (setRegistrationID "" <$> results)
  = zip_with setRegistrationID ids results.
Proof.
  induction ids as [|registrationID ids IH]; intros results; [done|].
  destruct results as [|r results]; [done|]. simpl. by rewrite IH.
Qed.

(** X1. Whatever the transport answers, a [send] whose gateway URL is
    accepted hands it exactly one request: a POST to the client's gateway
    with the two headers [Authorization: key=<APIKey>] and
    [Content-Type: application/json], in that order, and the marshalled
    message as body. *)
Theorem send_posts_once m message log :
  url_Parse (ClientGateway m) = true ->
  snd (send m message log)
  = log ++ [mkRequest "POST" (ClientGateway m)
              [("Authorization", ("key=" ++ APIKey m)%string);
               ("Content-Type", "application/json")]
              (json_Marshal message)].
Proof.
  intros Hurl.
  by rewrite (send_built _ _ _ _ (buildRequest_accepted m message Hurl)).
Qed.



(** X4. When a parsed 200 answer has one result per identifier, and on
    every other answer, the identifiers of the wire message can be read back
    from the response, in order. *)
Theorem send_identifiers_read_back m message log request :
  buildRequest m message = Some request ->
  (forall httpResponse parsed,
      HTTPClient m log request = Some httpResponse ->
      StatusCode httpResponse = StatusOK ->
      readError (Body httpResponse) = None ->
      json_Unmarshal (contents (Body httpResponse)) = Some parsed ->
      length (Results parsed) = length (RegistrationIDs message)) ->
  exists response,
    fst (send m message log) = Returned response
    /\ RegistrationID <$> Results response = RegistrationIDs message.
Proof.
  intros Hreq Hfit.
  destruct (send_classify m message log request Hreq)
    as [[e ->]|(httpResponse & parsed & Hresp & Hok & Hread & Hjson & ->)].
  - rewrite failureResponse_eq. eexists; split; [reflexivity|].
    simpl. apply fmap_RegistrationID_errorResult.
  - specialize (Hfit _ _ Hresp Hok Hread Hjson).
    rewrite (decode_parsed _ _ _ Hread Hjson) by lia.
    eexists; split; [reflexivity|]. simpl.
    rewrite drop_ge, app_nil_r by lia.
    apply fmap_RegistrationID_stamped. lia.
Qed.

(** X5. The [registration_id] a parsed result carries, the canonical
    identifier of the gateway, does not reach the caller: two 200 answers
    that parse to the same response up to the identifiers of their results,
    one result per identifier of the message, make [send] return the same
    response. *)
Theorem send_discards_parsed_identifiers
    (apiKey gateway : string) (c1 c2 : HTTPClientT) message log request
    (r1 r2 : HTTPResponse) (p1 p2 : Response) :
  buildRequest (mkClient apiKey gateway c1) message = Some request ->
  c1 log request = Some r1 ->
  c2 log request = Some r2 ->
  StatusCode r1 = StatusOK -> StatusCode r2 = StatusOK ->
  readError (Body r1) = None -> readError (Body r2) = None ->
  json_Unmarshal (contents (Body r1)) = Some p1 ->
  json_Unmarshal (contents (Body r2)) = Some p2 ->
  setResults (setRegistrationID "" <$> Results p1) p1
  = setResults (setRegistrationID "" <$> Results p2) p2 ->
  length (Results p1) = length (RegistrationIDs message) ->
  send (mkClient apiKey gateway c1) message log
  = send (mkClient apiKey gateway c2) message log.
Proof.
  intros Hreq Hc1 Hc2 Hok1 Hok2 Hread1 Hread2 Hjson1 Hjson2 Hsame Hlen.
  assert (Hreq2 : buildRequest (mkClient apiKey gateway c2) message = Some request)
    by exact Hreq.
  assert (Hlen2 : length (Results p2) = length (RegistrationIDs message)).
  { apply (f_equal (fun p => length (Results p))) in Hsame. simpl in Hsame.
    rewrite !length_fmap in Hsame. lia. }
  rewrite (send_parsed _ _ _ _ r1 p1 Hreq Hc1 Hok1 Hread1 Hjson1) by lia.
  rewrite (send_parsed _ _ _ _ r2 p2 Hreq2 Hc2 Hok2 Hread2 Hjson2) by lia.
  rewrite !drop_ge, !app_nil_r by lia.
  rewrite <- (zip_with_stamp_blank _ (Results p1)), <- (zip_with_stamp_blank _ (Results p2)).
  injection Hsame as Hm Hs Hf Hc Hr.
  unfold setResults. by rewrite Hm, Hs, Hf, Hc, Hr.
Qed.


End SendFurther.

(** * Further properties of [SendMessage] *)

Section SendMessageFurther.

Context `{env : Env}.

Implicit Types (m : Client) (message : Message) (log : Log).




(** The requests [sendAll] leaves on the log are those of the first wire
    messages, in order. *)
Lemma sendAll_log m messages : forall log,
  exists k requests,
    snd (sendAll m messages log) = log ++ requests
    /\ Forall2 (fun w request => buildRequest m w = Some request)
         (take k messages) requests.
Proof.
  induction messages as [|message rest IH]; intros log; simpl.
  - exists 0%nat, []. rewrite app_nil_r. by split; [|constructor].
  - unfold bind.
    destruct (buildRequest m message) as [request|] eqn:Hreq.
    + pose proof (send_built _ _ log _ Hreq) as Hsend.
      destruct (send m message log) as [[r|p] log1]; injection Hsend as _ ->.
      * destruct (IH (log ++ [request])) as (k & requests & Hlog & Hreqs).
        exists (S k), (request :: requests).
        destruct (sendAll m rest (log ++ [request])) as [[rs|p] log2];
          simpl in *; subst log2; rewrite <- app_assoc;
          (split; [done|by constructor]).
      * exists 1%nat, [request]. simpl. rewrite take_0.
        split; [done|]. constructor; [done|constructor].
    + rewrite (send_nil_request _ _ _ Hreq).
      exists 0%nat, []. rewrite app_nil_r. by split; [|constructor].
Qed.





(** X10. In every run, panicking ones included, [SendMessage] only appends
    to the log, and what it appends are the requests of the first [k] wire
    messages, in order, one each: no request is repeated and none is sent
    for a later wire message before an earlier one. *)
Theorem SendMessage_requests m message log :
  exists k requests,
    snd (SendMessage m (Some message) log) = log ++ requests
    /\ Forall2 (fun w request => buildRequest m w = Some request)
         (take k (encode message)) requests.
Proof.
  destruct (sendAll_log m (encode message) log) as (k & requests & Hlog & Hreqs).
  exists k, requests. split; [|done].
  rewrite SendMessage_sendAll.
  by destruct (sendAll m (encode message) log) as [[rs|p] log'].
Qed.

End SendMessageFurther.

(** ** Concrete runs of the further properties *)

(** The request is sent even when the answer makes [send] panic. *)
Lemma send_posts_once_witness :
  snd (@send testEnv (clientWith [ok200 emptyObjectBody]) (messageTo ["R1"]) [])
  = [requestTo ["R1"]].
Proof.
  apply (@send_posts_once testEnv (clientWith [ok200 emptyObjectBody])
           (messageTo ["R1"]) []).
  reflexivity.
Defined.


Lemma send_identifiers_read_back_witness :
  exists response,
    fst (@send testEnv (clientWith [ok200 deliveredBody]) (messageTo ["R1"]) [])
    = Returned response
    /\ RegistrationID <$> Results response = ["R1"].
Proof.
  apply (@send_identifiers_read_back testEnv (clientWith [ok200 deliveredBody])
           (messageTo ["R1"]) [] (requestTo ["R1"])); [reflexivity|].
  intros httpResponse parsed Hresp _ _ Hjson.
  vm_compute in Hresp. injection Hresp as <-.
  vm_compute in Hjson. injection Hjson as <-.
  reflexivity.
Defined.

(** The canonical identifiers [C1] and [C2] give one and the same response. *)
Lemma send_discards_parsed_identifiers_witness :
  @send canonicalEnv (mkClient "secret" Gateway (scripted [ok200 (canonicalBody "C1")]))
    (messageTo ["R1"]) []
  = @send canonicalEnv (mkClient "secret" Gateway (scripted [ok200 (canonicalBody "C2")]))
      (messageTo ["R1"]) [].
Proof.
  apply (@send_discards_parsed_identifiers canonicalEnv "secret" Gateway
           (scripted [ok200 (canonicalBody "C1")])
           (scripted [ok200 (canonicalBody "C2")])
           (messageTo ["R1"]) [] (requestTo ["R1"])
           (mkHTTPResponse 200 (mkBody (canonicalBody "C1") None))
           (mkHTTPResponse 200 (mkBody (canonicalBody "C2") None))
           (mkResponse 123 1 0 1 [mkResult "m1" "C1" ""])
           (mkResponse 123 1 0 1 [mkResult "m1" "C2" ""])); reflexivity.
Defined.




